(** * ClexoMart RFID relay ([Front_end_PHP/relay.py]): model and properties

    The relay reads lines from a serial port, normalises each line into an
    identifier, posts it to an HTTP endpoint and logs what happened.  The
    program is modelled as a function from what its environment does (the
    result of opening the port, and for every loop iteration what
    [readline], [requests.post] and [time.sleep] do) to the sequence of
    observable events it performs and the way the process ends. *)

From Stdlib Require Import ZArith Ascii String DecimalString.
From stdpp Require Import base decidable option list gmap.

Local Open Scope Z_scope.

(** ** Python text and bytes *)

(** A Python [str] is a sequence of Unicode code points; a [bytes] object is
    a sequence of integers in [0, 255]. *)
Definition py_str := list Z.
Definition py_bytes := list Z.

(** The code points of an ASCII literal of the source. *)
Definition lit (s : string) : py_str :=
  (λ a, Z.of_nat (nat_of_ascii a)) <$> list_ascii_of_string s.

(** [str(n)] for a non-negative [int]. *)
Definition str_of_int (n : Z) : py_str :=
  lit (NilZero.string_of_int (Z.to_int n)).

Module Unicode.

(** [Py_UNICODE_ISSPACE]: the code points [str.strip()] removes. *)
Definition isspace (c : Z) : bool :=
  ((0x09 <=? c) && (c <=? 0x0D)) || ((0x1C <=? c) && (c <=? 0x20))
  || (c =? 0x85) || (c =? 0xA0) || (c =? 0x1680)
  || ((0x2000 <=? c) && (c <=? 0x200A))
  || (c =? 0x2028) || (c =? 0x2029) || (c =? 0x202F) || (c =? 0x205F)
  || (c =? 0x3000).

(** [str.lstrip()]: white space is removed up to the first other code
    point. *)
Fixpoint lstrip (s : py_str) : py_str :=
  match s with
  | [] => []
  | c :: s' => if isspace c then lstrip s' else s
  end.

(** [str.rstrip()]: the same from the right end. *)
Definition rstrip (s : py_str) : py_str := reverse (lstrip (reverse s)).

(** [str.strip()] *)
Definition strip (s : py_str) : py_str := rstrip (lstrip s).

Section Upper.
(** The full upper-case mapping of the Unicode database for the code
    points outside ASCII (one code point may map to several). *)
Variable unicode_upper : Z → list Z.

Definition upper_char (c : Z) : list Z :=
  if c <? 0x80 then
    if (0x61 <=? c) && (c <=? 0x7A) then [c - 0x20] else [c]
  else unicode_upper c.

(** [str.upper()] *)
Definition upper (s : py_str) : py_str := s ≫= upper_char.
End Upper.

(** An upper-case mapping that leaves every code point outside ASCII
    unchanged; it agrees with the Unicode database on ASCII text. *)
Definition caseless : Z → list Z := λ c, [c].

End Unicode.

(** ** UTF-8 decoding: [bytes.decode('utf-8', errors=...)] *)

Module Utf8.

Inductive error_handler := Strict | Ignore | Replace.

Definition is_continuation (b : Z) : bool := (0x80 <=? b) && (b <? 0xC0).

(** A decoded code point is put in front of the rest of the text. *)
Definition emit (c : Z) (rest : option py_str) : option py_str :=
  (c ::.) <$> rest.

(** A malformed sequence was found and decoding resumes after it: [strict]
    raises [UnicodeDecodeError] ([None]), [ignore] drops the malformed
    bytes, [replace] puts U+FFFD in their place. *)
Definition on_error (h : error_handler) (rest : option py_str) : option py_str :=
  match h with
  | Strict => None
  | Ignore => rest
  | Replace => emit 0xFFFD rest
  end.

(** The second byte of a three-byte or four-byte sequence is rejected when
    it is no continuation byte or when it would start an over-long form, a
    surrogate, or a code point above U+10FFFF. *)
Definition bad_second3 (ch ch2 : Z) : bool :=
  negb (is_continuation ch2) || (if ch2 <? 0xA0 then ch =? 0xE0 else ch =? 0xED).
Definition bad_second4 (ch ch2 : Z) : bool :=
  negb (is_continuation ch2) || (if ch2 <? 0x90 then ch =? 0xF0 else ch =? 0xF4).

Definition cp2 (ch ch2 : Z) : Z :=
  Z.shiftl ch 6 + ch2 - (Z.shiftl 0xC0 6 + 0x80).
Definition cp3 (ch ch2 ch3 : Z) : Z :=
  Z.shiftl ch 12 + Z.shiftl ch2 6 + ch3
  - (Z.shiftl 0xE0 12 + Z.shiftl 0x80 6 + 0x80).
Definition cp4 (ch ch2 ch3 ch4 : Z) : Z :=
  Z.shiftl ch 18 + Z.shiftl ch2 12 + Z.shiftl ch3 6 + ch4
  - (Z.shiftl 0xF0 18 + Z.shiftl 0x80 12 + Z.shiftl 0x80 6 + 0x80).

(** The decoder of CPython.  An invalid start byte is an error of one
    byte; an invalid continuation byte ends the error just before it, so
    decoding resumes at that byte; input that ends inside a sequence is an
    error that reaches to the end of the input. *)
Fixpoint decode (h : error_handler) (s : py_bytes) : option py_str :=
  match s with
  | [] => Some []
  | ch :: s1 =>
    if ch <? 0x80 then emit ch (decode h s1)
    else if ch <? 0xC2 then on_error h (decode h s1)
    else if ch <? 0xE0 then
      match s1 with
      | [] => on_error h (Some [])
      | ch2 :: s2 =>
        if is_continuation ch2 then emit (cp2 ch ch2) (decode h s2)
        else on_error h (decode h s1)
      end
    else if ch <? 0xF0 then
      match s1 with
      | [] => on_error h (Some [])
      | ch2 :: s2 =>
        if bad_second3 ch ch2 then on_error h (decode h s1)
        else
          match s2 with
          | [] => on_error h (Some [])
          | ch3 :: s3 =>
            if is_continuation ch3 then emit (cp3 ch ch2 ch3) (decode h s3)
            else on_error h (decode h s2)
          end
      end
    else if ch <? 0xF5 then
      match s1 with
      | [] => on_error h (Some [])
      | ch2 :: s2 =>
        if bad_second4 ch ch2 then on_error h (decode h s1)
        else
          match s2 with
          | [] => on_error h (Some [])
          | ch3 :: s3 =>
            if negb (is_continuation ch3) then on_error h (decode h s2)
            else
              match s3 with
              | [] => on_error h (Some [])
              | ch4 :: s4 =>
                if is_continuation ch4
                then emit (cp4 ch ch2 ch3 ch4) (decode h s4)
                else on_error h (decode h s3)
              end
          end
      end
    else on_error h (decode h s1)
  end.

End Utf8.

(** ** Exceptions *)

(** The exception classes the program can meet: those of [requests], those
    of [serial], other subclasses of [Exception], and the subclasses of
    [BaseException] that are not subclasses of [Exception]. *)
Inductive exn_class :=
  | RequestsTimeout | RequestsConnectTimeout | RequestsReadTimeout
  | RequestsConnectionError | RequestsProxyError | RequestsSSLError
  | RequestsOther
  | SerialException | SerialTimeoutException | PortNotOpenError
  | UnicodeDecodeError
  | OtherException
  | KeyboardInterrupt
  | OtherBaseException.

#[global] Instance exn_class_eq_dec : EqDecision exn_class.
Proof. solve_decision. Defined.

(** A raised exception: its class and [str(e)]. *)
Record exn := Exn { exn_cls : exn_class; exn_str : py_str }.

(** [isinstance(e, requests.exceptions.Timeout)]; [ConnectTimeout] derives
    from both [ConnectionError] and [Timeout]. *)
Definition is_Timeout (e : exn) : bool :=
  match exn_cls e with
  | RequestsTimeout | RequestsConnectTimeout | RequestsReadTimeout => true
  | _ => false
  end.

(** [isinstance(e, requests.exceptions.ConnectionError)] *)
Definition is_ConnectionError (e : exn) : bool :=
  match exn_cls e with
  | RequestsConnectionError | RequestsConnectTimeout
  | RequestsProxyError | RequestsSSLError => true
  | _ => false
  end.

(** [isinstance(e, serial.SerialException)] *)
Definition is_SerialException (e : exn) : bool :=
  match exn_cls e with
  | SerialException | SerialTimeoutException | PortNotOpenError => true
  | _ => false
  end.

(** [isinstance(e, KeyboardInterrupt)] *)
Definition is_KeyboardInterrupt (e : exn) : bool :=
  match exn_cls e with KeyboardInterrupt => true | _ => false end.

(** [isinstance(e, Exception)] *)
Definition is_Exception (e : exn) : bool :=
  match exn_cls e with
  | KeyboardInterrupt | OtherBaseException => false
  | _ => true
  end.

(** ** Parsed JSON values and HTTP responses *)

#[local] Set Warnings "-register-all".

(** What [resp.json()] returns: [None], [bool], [int], [float] (kept as its
    printed form), [str], [list] or [dict]. *)
Inductive json :=
  | JNull
  | JBool (b : bool)
  | JInt (n : Z)
  | JFloat (printed : py_str)
  | JStr (s : py_str)
  | JList (items : list json)
  | JDict (fields : gmap py_str json).

(** [s.startswith(p)] *)
Fixpoint is_prefix (p s : py_str) : bool :=
  match p, s with
  | [], _ => true
  | _ :: _, [] => false
  | a :: p', b :: s' => (a =? b) && is_prefix p' s'
  end.

(** [p in s] for two strings. *)
Fixpoint is_substring (p s : py_str) : bool :=
  is_prefix p s || match s with [] => false | _ :: s' => is_substring p s' end.

Definition is_JStr (k : py_str) (v : json) : bool :=
  match v with JStr s => bool_decide (s = k) | _ => false end.

(** [k in v]: key membership for a dict, element membership for a list,
    substring test for a string, [TypeError] ([None]) otherwise. *)
Definition py_contains (k : py_str) (v : json) : option bool :=
  match v with
  | JDict fields => Some (bool_decide (is_Some (fields !! k)))
  | JList items => Some (existsb (is_JStr k) items)
  | JStr s => Some (is_substring k s)
  | _ => None
  end.

(** [v[k]] for a string key [k]: the value of a dict ([KeyError] when
    absent); every other type raises [TypeError]. *)
Definition py_getitem (k : py_str) (v : json) : option json :=
  match v with
  | JDict fields => fields !! k
  | _ => None
  end.

(** A [requests.Response]: [json_result] is what [resp.json()] returns, or
    [None] when it raises. *)
Record response := Response {
  status_code : Z;
  reason : py_str;
  text : py_str;
  json_result : option json
}.

(** [resp.ok]: [raise_for_status()] raises for a status from 400 to 599
    and for no other. *)
Definition ok (resp : response) : bool :=
  negb ((400 <=? status_code resp) && (status_code resp <? 600)).

(** ** Programs: observable events and exceptions *)

(** The calls the program makes on its environment.  Durations are in
    milliseconds: [timeout=1] is 1000, [timeout=2] is 2000 and
    [time.sleep(0.1)] is 100.  [SerialClose] is the release of the serial
    handle ([ser.close()], or leaving a [with] block). *)
Inductive event :=
  | Print (line : py_str)
  | SerialOpen (port : py_str) (baudrate : Z) (timeout : Z)
  | SerialReadline
  | SerialClose
  | HttpPost (url : py_str) (payload : json)
             (headers : list (py_str * py_str)) (timeout : Z)
  | Sleep (ms : Z).

Inductive result (A : Type) :=
  | Done (a : A)
  | Raise (e : exn).
Arguments Done {A} a.
Arguments Raise {A} e.

(** A program performs events and then either yields a value or raises. *)
Definition prog (A : Type) : Type := list event * result A.

#[global] Instance prog_ret : MRet prog := λ A a, ([], Done a).
#[global] Instance prog_bind : MBind prog := λ A B f m,
  match m with
  | (tr, Done a) => let '(tr', r) := f a in (tr ++ tr', r)
  | (tr, Raise e) => (tr, Raise e)
  end.

Definition trace {A} (m : prog A) : list event := m.1.
Definition outcome {A} (m : prog A) : result A := m.2.

(** [call ev r]: a call on the environment, visible as [ev], that does [r]. *)
Definition call {A} (ev : event) (r : result A) : prog A := ([ev], r).

Definition print (line : py_str) : prog unit := call (Print line) (Done ()).

(** [try: body except ...]: [handlers e] is the first clause that matches
    [e], or [None] when no clause does and [e] propagates. *)
Definition try_except {A} (body : prog A) (handlers : exn → option (prog A)) : prog A :=
  match body with
  | (tr, Done a) => (tr, Done a)
  | (tr, Raise e) =>
    match handlers e with
    | Some h => (tr ++ trace h, outcome h)
    | None => (tr, Raise e)
    end
  end.

(** ** The relay *)

Definition SERIAL_PORT : py_str := lit "COM6".
Definition BAUDRATE : Z := 9600.
Definition API_URL : py_str := lit "http://127.0.0.1:8000/api/rfid".

(** The ellipsis U+2026 that the error message ends with. *)
Definition ellipsis : py_str := [0x2026].

(** [(resp.text[:120] + '…') if resp.text else resp.reason] *)
Definition error_msg (resp : response) : py_str :=
  match text resp with
  | [] => reason resp
  | _ :: _ => take 120 (text resp) ++ ellipsis
  end.

(** What the environment does in one iteration of the loop: the result of
    [ser.readline()], of [requests.post(...)] (when it is called) and of
    [time.sleep(0.1)] (when it is called). *)
Record iter_env := IterEnv {
  readline_does : result py_bytes;
  post_does : result response;
  sleep_does : result unit
}.

(** How control leaves the [try] statement of the loop body: at its end,
    or by [continue]. *)
Inductive flow := Fallthrough | Continue.

(** How [main] ends: by its [return], or not at all within the iterations
    the environment was described for. *)
Inductive main_state := Returned | Looping.

(** How the process ends: with an exit status, or not within the
    iterations described. *)
Inductive process_end := Exited (status : Z) | Running.

Section Relay.

(** The Unicode upper-case table outside ASCII, and [str(v)] for the
    parsed JSON values whose printed form is not modelled (floats, lists
    and dicts). *)
Variable unicode_upper : Z → list Z.
Variable str_compound : json → py_str.

(** [str(v)], as an f-string formats the value. *)
Definition py_format (v : json) : py_str :=
  match v with
  | JStr s => s
  | JInt n => str_of_int n
  | JNull => lit "None"
  | JBool true => lit "True"
  | JBool false => lit "False"
  | _ => str_compound v
  end.

(** [bytes.decode('utf-8', errors=...)] as a step of the program. *)
Definition decode_bytes (h : Utf8.error_handler) (b : py_bytes) : prog py_str :=
  match Utf8.decode h b with
  | Some s => mret s
  | None => ([], Raise (Exn UnicodeDecodeError (lit "'utf-8' codec can't decode")))
  end.

Definition post_headers : list (py_str * py_str) :=
  [(lit "Accept", lit "application/json");
   (lit "Content-Type", lit "application/json")].

Definition post_payload (uid : py_str) : json :=
  JDict {[ lit "uid" := JStr uid ]}.

(** The inner [try: ... except: pass] around [resp.json()]: any failure
    inside it leaves no trace. *)
Definition report_message (resp : response) : prog unit :=
  match json_result resp with
  | None => mret ()
  | Some response_data =>
    match py_contains (lit "message") response_data with
    | None => mret ()
    | Some false => mret ()
    | Some true =>
      match py_getitem (lit "message") response_data with
      | None => mret ()
      | Some v => print (lit "[+] Server Response: " ++ py_format v)
      end
    end
  end.

(** The body of the [try] statement of the loop. *)
Definition try_body (env : iter_env) : prog flow :=
  line ← call SerialReadline (readline_does env);
  text ← decode_bytes Utf8.Ignore line;
  let raw := Unicode.strip text in
  match raw with
  | [] => mret Continue
  | _ :: _ =>
    let uid := Unicode.upper unicode_upper raw in
    print (lit "[+] RFID Tag Detected: " ++ uid);;
    resp ← call (HttpPost API_URL (post_payload uid) post_headers 2000)
                (post_does env);
    (if ok resp then
       print (lit "[+] Success: UID " ++ uid ++ lit " processed by Laravel");;
       report_message resp
     else
       print (lit "[!] API Error " ++ str_of_int (status_code resp) ++ lit ": "
              ++ error_msg resp);;
       print (lit "[!] Failed to process UID: " ++ uid));;
    mret Fallthrough
  end.

(** The [except] clauses of the loop, in the order of the source. *)
Definition loop_handlers (e : exn) : option (prog flow) :=
  if is_Timeout e then Some (
    print (lit "[!] API Timeout: Laravel server not responding");;
    print (lit "[!] Check if Laravel application is running on " ++ API_URL);;
    mret Fallthrough)
  else if is_ConnectionError e then Some (
    print (lit "[!] Connection Error: Cannot reach Laravel API");;
    print (lit "[!] Verify Laravel server is running and accessible");;
    mret Fallthrough)
  else if is_SerialException e then Some (
    print (lit "[!] Serial Error: " ++ exn_str e);;
    print (lit "[!] Check Arduino connection and port settings");;
    mret Fallthrough)
  else if is_Exception e then Some (
    print (lit "[!] Unexpected Error: " ++ exn_str e);;
    mret Fallthrough)
  else None.

(** One iteration of [while True]: the [try] statement, then the delay
    unless the [try] body left by [continue]. *)
Definition iteration (env : iter_env) : prog unit :=
  f ← try_except (try_body env) loop_handlers;
  match f with
  | Continue => mret ()
  | Fallthrough => call (Sleep 100) (sleep_does env)
  end.

(** [while True], for as many iterations as the environment is described
    for. *)
Fixpoint loop (script : list iter_env) : prog main_state :=
  match script with
  | [] => mret Looping
  | env :: script' => iteration env;; loop script'
  end.

(** The first [try] statement of [main]: [true] when the port is open. *)
Definition open_serial (open_does : result unit) : prog bool :=
  try_except
    (call (SerialOpen SERIAL_PORT BAUDRATE 1000) open_does;;
     print (lit "[+] RFID Relay Started: Listening on " ++ SERIAL_PORT
            ++ lit " at " ++ str_of_int BAUDRATE ++ lit " baud");;
     print (lit "[+] API Endpoint: " ++ API_URL);;
     print (lit "[+] Ready to process RFID tags...");;
     mret true)
    (λ e,
      if is_Exception e then Some (
        print (lit "[!] Serial Connection Failed: Could not open "
               ++ SERIAL_PORT ++ lit ": " ++ exn_str e);;
        print (lit "[!] Please check:");;
        print (lit "    - Arduino is connected to " ++ SERIAL_PORT);;
        print (lit "    - Arduino drivers are installed");;
        print (lit "    - Port is not in use by another application");;
        mret false)
      else None).

Definition main (open_does : result unit) (script : list iter_env) : prog main_state :=
  opened ← open_serial open_does;
  if opened : bool then loop script else mret Returned.

Definition banner : prog unit :=
  print (replicate 60 0x3D);;
  print (lit "ClexoMart IoT RFID Relay System");;
  print (lit "Real-time Inventory Tracking via RFID");;
  print (replicate 60 0x3D).

(** The [if __name__ == '__main__'] block.  The script ends with status 0
    when [main] returns or when a clause catches what it raised; an
    exception that no clause catches ends the interpreter with a traceback
    and status 1. *)
Definition entry_point (open_does : result unit) (script : list iter_env)
  : list event * process_end :=
  let '(tr, r) :=
    banner;;
    try_except (main open_does script)
      (λ e,
        if is_KeyboardInterrupt e then Some (
          print ([10] ++ lit "[+] RFID Relay stopped by user (Ctrl+C)");;
          print (lit "[+] Goodbye!");;
          mret Returned)
        else if is_Exception e then Some (
          print ([10] ++ lit "[!] Fatal Error: " ++ exn_str e);;
          print (lit "[!] RFID Relay terminated unexpectedly");;
          mret Returned)
        else None) in
  match r with
  | Done Returned => (tr, Exited 0)
  | Done Looping => (tr, Running)
  | Raise _ => (tr, Exited 1)
  end.

End Relay.

(** ** Reading a run *)

(** The lines printed, the requests sent and the delays taken in a trace. *)
Definition printed (tr : list event) : list py_str :=
  omap (λ ev, match ev with Print line => Some line | _ => None end) tr.

Definition posted (tr : list event) : list (py_str * json) :=
  omap (λ ev, match ev with
              | HttpPost url payload _ _ => Some (url, payload)
              | _ => None
              end) tr.

Definition is_sleep (ev : event) : bool :=
  match ev with Sleep _ => true | _ => false end.


(** The text of a line read from the port: [errors='ignore'] makes the
    decoder total (lemma [decode_ignore_total] below). *)
Definition decoded (line : py_bytes) : py_str :=
  default [] (Utf8.decode Utf8.Ignore line).

(** The identifier of a line: its text, stripped, in upper case. *)
Definition identifier (unicode_upper : Z → list Z) (line : py_bytes) : py_str :=
  Unicode.upper unicode_upper (Unicode.strip (decoded line)).

Definition detected_line (uid : py_str) : py_str :=
  lit "[+] RFID Tag Detected: " ++ uid.

(** The line read is empty once decoded and stripped: an idle read. *)
Definition idle (env : iter_env) : bool :=
  match readline_does env with
  | Done line => bool_decide (Unicode.strip (decoded line) = [])
  | Raise _ => false
  end.


(** The events of an iteration up to and including the request. *)
Definition request_events (uid : py_str) : list event :=
  [SerialReadline; Print (detected_line uid);
   HttpPost API_URL (post_payload uid) post_headers 2000].

(** The environment of an iteration neither interrupts [readline] or
    [post] with an exception outside [Exception], nor interrupts the
    delay. *)
Definition raises_Exception {A} (r : result A) : bool :=
  match r with Done _ => true | Raise e => is_Exception e end.

Definition completes {A} (r : result A) : bool :=
  match r with Done _ => true | Raise _ => false end.

Definition uninterrupted (env : iter_env) : bool :=
  raises_Exception (readline_does env) && raises_Exception (post_does env)
  && completes (sleep_does env).

(** *** The outcomes of the specification and their log lines

    The program keeps no outcome value: an outcome shows as the lines the
    program prints for it.  [outcome_log] gives, for each outcome of the
    specification's classification, the lines of the [print] calls of the
    branch of the source that handles it. *)
Inductive Outcome :=
  | Delivered (message : option py_str)
  | Rejected (status : Z) (excerpt : py_str)
  | NetworkTimeout
  | NetworkUnreachable
  | SerialFailure (cause : py_str)
  | UnknownFailure (cause : py_str).

Inductive category :=
  | IsDelivered | IsRejected | IsNetworkTimeout | IsNetworkUnreachable
  | IsSerialFailure | IsUnknownFailure.

Definition category_of (o : Outcome) : category :=
  match o with
  | Delivered _ => IsDelivered
  | Rejected _ _ => IsRejected
  | NetworkTimeout => IsNetworkTimeout
  | NetworkUnreachable => IsNetworkUnreachable
  | SerialFailure _ => IsSerialFailure
  | UnknownFailure _ => IsUnknownFailure
  end.

Definition message_lines (m : option py_str) : list py_str :=
  match m with
  | Some t => [lit "[+] Server Response: " ++ t]
  | None => []
  end.

Definition outcome_log (uid : py_str) (o : Outcome) : list py_str :=
  match o with
  | Delivered m =>
    (lit "[+] Success: UID " ++ uid ++ lit " processed by Laravel")
    :: message_lines m
  | Rejected status excerpt =>
    [lit "[!] API Error " ++ str_of_int status ++ lit ": " ++ excerpt;
     lit "[!] Failed to process UID: " ++ uid]
  | NetworkTimeout =>
    [lit "[!] API Timeout: Laravel server not responding";
     lit "[!] Check if Laravel application is running on " ++ API_URL]
  | NetworkUnreachable =>
    [lit "[!] Connection Error: Cannot reach Laravel API";
     lit "[!] Verify Laravel server is running and accessible"]
  | SerialFailure cause =>
    [lit "[!] Serial Error: " ++ cause;
     lit "[!] Check Arduino connection and port settings"]
  | UnknownFailure cause =>
    [lit "[!] Unexpected Error: " ++ cause]
  end.

(** The first nine characters of the first line tell the categories apart. *)
Definition log_tag (log : list py_str) : py_str :=
  take 9 (default [] (head log)).

Definition category_tag (c : category) : py_str :=
  match c with
  | IsDelivered => lit "[+] Succe"
  | IsRejected => lit "[!] API E"
  | IsNetworkTimeout => lit "[!] API T"
  | IsNetworkUnreachable => lit "[!] Conne"
  | IsSerialFailure => lit "[!] Seria"
  | IsUnknownFailure => lit "[!] Unexp"
  end.

(** The outcome that the [except] clauses of the loop report for an
    exception, and the one the response branch reports for a response. *)
Definition failure_outcome (e : exn) : Outcome :=
  if is_Timeout e then NetworkTimeout
  else if is_ConnectionError e then NetworkUnreachable
  else if is_SerialException e then SerialFailure (exn_str e)
  else UnknownFailure (exn_str e).

Section Reading.
Variable str_compound : json → py_str.

Definition surfaced_message (resp : response) : option py_str :=
  match json_result resp with
  | Some (JDict fields) => py_format str_compound <$> fields !! lit "message"
  | _ => None
  end.

Definition response_outcome (resp : response) : Outcome :=
  if ok resp then Delivered (surfaced_message resp)
  else Rejected (status_code resp) (error_msg resp).
End Reading.

(** ** Concrete environments

    The inputs of the closed examples below: lines, responses and
    iterations, an upper-case table ([Unicode.caseless]) and a printed form
    for compound JSON values. *)
Definition str_opaque : json → py_str := λ _, lit "<value>".

Definition line_a1b2c3 : py_bytes := lit " a1b2c3 " ++ [10].

(** [{"message":"ok"}] *)
Definition body_message_ok : py_str :=
  lit "{" ++ [34] ++ lit "message" ++ [34] ++ lit ":" ++ [34] ++ lit "ok" ++ [34]
  ++ lit "}".

Definition resp_200 : response :=
  Response 200 (lit "OK") body_message_ok
    (Some (JDict {[ lit "message" := JStr (lit "ok") ]})).
Definition resp_304 : response := Response 304 (lit "Not Modified") [] None.
Definition resp_422 : response :=
  Response 422 (lit "Unprocessable Entity") (lit "duplicate tag") None.

Definition interrupt : exn := Exn KeyboardInterrupt [].
Definition timed_out : exn := Exn RequestsReadTimeout (lit "Read timed out.").
Definition refused : exn := Exn RequestsConnectionError (lit "Connection refused").
Definition unplugged : exn := Exn SerialException (lit "device disconnected").
Definition port_missing : exn :=
  Exn SerialException (lit "could not open port 'COM6'").

Definition env_scan (resp : response) : iter_env :=
  IterEnv (Done line_a1b2c3) (Done resp) (Done ()).
Definition env_scan_fails (e : exn) : iter_env :=
  IterEnv (Done line_a1b2c3) (Raise e) (Done ()).
(** [b"a\xff\xe2\x82b\xc3\n"]: the letters [a] and [b] among malformed
    bytes. *)
Definition line_noisy : py_bytes := [0x61; 0xFF; 0xE2; 0x82; 0x62; 0xC3; 0x0A].

Definition script_mixed : list iter_env :=
  [env_scan resp_200; IterEnv (Done []) (Done resp_200) (Done ());
   env_scan_fails refused; env_scan_fails timed_out;
   IterEnv (Raise unplugged) (Done resp_200) (Done ()); env_scan resp_422].

Definition env_idle : iter_env := IterEnv (Done []) (Done resp_200) (Done ()).
Definition env_read_fails (e : exn) : iter_env :=
  IterEnv (Raise e) (Done resp_200) (Done ()).

(** A line of white space only ([b" \r\n"]), a success response whose body
    is the JSON list [["message"]], and a delay that raises. *)
Definition line_blank : py_bytes := [0x20; 0x0D; 0x0A].
Definition env_blank : iter_env :=
  IterEnv (Done line_blank) (Done resp_200) (Done ()).

Definition resp_200_list : response :=
  Response 200 (lit "OK") (lit "[" ++ [34] ++ lit "message" ++ [34] ++ lit "]")
    (Some (JList [JStr (lit "message")])).


(** ** Counting and pacing in a trace *)

Definition is_readline (ev : event) : bool :=
  match ev with SerialReadline => true | _ => false end.

Definition is_open (ev : event) : bool :=
  match ev with SerialOpen _ _ _ => true | _ => false end.

Definition is_post (ev : event) : bool :=
  match ev with HttpPost _ _ _ _ => true | _ => false end.

(** The number of events of a trace that satisfy [p]. *)
Definition count (p : event → bool) (tr : list event) : nat :=
  length (List.filter p tr).

(** A request is pending from the moment it is sent until the next delay of
    100 ms. *)
Definition pending_step (pending : bool) (ev : event) : bool :=
  match ev with
  | HttpPost _ _ _ _ => true
  | Sleep ms => if ms =? 100 then false else pending
  | _ => pending
  end.

Definition pending_after (pending : bool) (tr : list event) : bool :=
  foldl pending_step pending tr.

(** No request is sent while another is pending: two requests are always
    separated by a delay of 100 ms. *)
Fixpoint paced_from (pending : bool) (tr : list event) : bool :=
  match tr with
  | [] => true
  | ev :: tr' =>
    (if is_post ev then negb pending else true)
    && paced_from (pending_step pending ev) tr'
  end.


(** ** Classes of bytes and code points *)

Definition is_byte (b : Z) : bool := (0 <=? b) && (b <=? 255).

Definition is_ascii (c : Z) : bool := (0 <=? c) && (c <? 0x80).

Definition is_ascii_lower (c : Z) : bool := (0x61 <=? c) && (c <=? 0x7A).

(** The upper-case form of an ASCII character. *)
Definition ascii_upper (c : Z) : Z := if is_ascii_lower c then c - 0x20 else c.

(** A Unicode scalar value: a code point up to U+10FFFF that is no
    surrogate. *)
Definition is_scalar_value (c : Z) : bool :=
  (0 <=? c) && (c <=? 0x10FFFF) && negb ((0xD800 <=? c) && (c <=? 0xDFFF)).

(** * Properties *)

Example strip_upper_scenario :
  Unicode.upper Unicode.caseless
    (Unicode.strip (default [] (Utf8.decode Utf8.Ignore (lit " a1b2c3 " ++ [10]))))
  = lit "A1B2C3".
Proof. reflexivity. Qed.

Example decode_euro : Utf8.decode Utf8.Strict [0xE2; 0x82; 0xAC] = Some [0x20AC].
Proof. reflexivity. Qed.

Example decode_noise :
  Utf8.decode Utf8.Ignore [0x41; 0xFF; 0xE2; 0x82; 0x42; 0xC3] = Some [0x41; 0x42].
Proof. reflexivity. Qed.

Example decode_noise_replace :
  Utf8.decode Utf8.Replace [0x41; 0xFF; 0xE2; 0x82; 0x42; 0xC3]
  = Some [0x41; 0xFFFD; 0xFFFD; 0x42; 0xFFFD].
Proof. reflexivity. Qed.
(** ** The decoder *)

Section DecoderFacts.
Import Utf8.

(** With [errors='ignore'] the decoder returns the strict decoding of a
    subsequence of its input. *)
Lemma decode_ignore_sub n :
  ∀ b : py_bytes, (length b ≤ n)%nat →
    ∃ s b', decode Ignore b = Some s ∧ b' `sublist_of` b ∧ decode Strict b' = Some s.
Proof.
  induction n as [|n IH]; intros b Hn.
  { destruct b; [|simpl in Hn; lia]. by exists [], []. }
  assert (Hskip : ∀ (pre rest : py_bytes), b = pre ++ rest → pre ≠ [] →
    ∃ s b', decode Ignore rest = Some s ∧ b' `sublist_of` b ∧ decode Strict b' = Some s).
  { intros pre rest -> Hpre.
    destruct (IH rest) as (s & b' & ? & ? & ?).
    - rewrite length_app in Hn. destruct pre; [done|]. simpl in Hn. lia.
    - exists s, b'. split_and!; [done| |done]. by apply sublist_inserts_l. }
  assert (Hkeep : ∀ (pre rest : py_bytes) c, b = pre ++ rest → pre ≠ [] →
    (∀ t, decode Strict (pre ++ t) = emit c (decode Strict t)) →
    ∃ s b', emit c (decode Ignore rest) = Some s ∧ b' `sublist_of` b ∧ decode Strict b' = Some s).
  { intros pre rest c -> Hpre Hdec.
    destruct (IH rest) as (s & b' & Hi & ? & Hs).
    - rewrite length_app in Hn. destruct pre; [done|]. simpl in Hn. lia.
    - exists (c :: s), (pre ++ b'). split_and!.
      + by rewrite Hi.
      + by apply sublist_app.
      + by rewrite Hdec, Hs. }
  assert (Hend : ∃ s b', Some [] = Some s ∧ b' `sublist_of` b ∧ decode Strict b' = Some s).
  { exists [], []. split_and!; [done|apply sublist_nil_l|done]. }
  clear IH Hn.
  destruct b as [|ch s1]; [done|].
  cbn [decode].
  destruct (ch <? 0x80) eqn:E1.
  { apply (Hkeep [ch]); [done..|]. intros t. cbn [app decode]. by rewrite E1. }
  destruct (ch <? 0xC2) eqn:E2.
  { by apply (Hskip [ch]). }
  destruct (ch <? 0xE0) eqn:E3.
  { destruct s1 as [|ch2 s2]; [done|].
    destruct (is_continuation ch2) eqn:C2.
    - apply (Hkeep [ch; ch2]); [done..|]. intros t. cbn [app decode].
      by rewrite E1, E2, E3, C2.
    - by apply (Hskip [ch]). }
  destruct (ch <? 0xF0) eqn:E4.
  { destruct s1 as [|ch2 s2]; [done|].
    destruct (bad_second3 ch ch2) eqn:C2; [by apply (Hskip [ch])|].
    destruct s2 as [|ch3 s3]; [done|].
    destruct (is_continuation ch3) eqn:C3.
    - apply (Hkeep [ch; ch2; ch3]); [done..|]. intros t. cbn [app decode].
      by rewrite E1, E2, E3, E4, C2, C3.
    - by apply (Hskip [ch; ch2]). }
  destruct (ch <? 0xF5) eqn:E5.
  { destruct s1 as [|ch2 s2]; [done|].
    destruct (bad_second4 ch ch2) eqn:C2; [by apply (Hskip [ch])|].
    destruct s2 as [|ch3 s3]; [done|].
    destruct (is_continuation ch3) eqn:C3; cbn [negb]; [|by apply (Hskip [ch; ch2])].
    destruct s3 as [|ch4 s4]; [done|].
    destruct (is_continuation ch4) eqn:C4.
    - apply (Hkeep [ch; ch2; ch3; ch4]); [done..|]. intros t. cbn [app decode].
      by rewrite E1, E2, E3, E4, E5, C2, C3, C4.
    - by apply (Hskip [ch; ch2; ch3]). }
  by apply (Hskip [ch]).
Qed.

Lemma decode_ignore_total (b : py_bytes) : decode Ignore b = Some (decoded b).
Proof.
  destruct (decode_ignore_sub (length b) b) as (s & _ & H & _); [done|].
  unfold decoded. by rewrite H.
Qed.

End DecoderFacts.

(** ** Log lines *)

#[local] Arguments lit : simpl never.
#[local] Arguments str_of_int : simpl never.
#[local] Arguments Unicode.upper : simpl never.
#[local] Arguments Unicode.strip : simpl never.

Lemma log_tag_outcome uid o :
  log_tag (outcome_log uid o) = category_tag (category_of o).
Proof. by destruct o. Qed.

Lemma category_tag_inj c1 c2 : category_tag c1 = category_tag c2 → c1 = c2.
Proof. by destruct c1, c2. Qed.

(** The log lines of two outcomes of different categories differ, whatever
    the identifiers and the details captured. *)
Lemma outcome_log_category uid1 uid2 o1 o2 :
  outcome_log uid1 o1 = outcome_log uid2 o2 → category_of o1 = category_of o2.
Proof.
  intros H. apply category_tag_inj.
  by rewrite <- (log_tag_outcome uid1 o1), <- (log_tag_outcome uid2 o2), H.
Qed.

(** ** The error message *)

Lemma error_msg_empty resp : text resp = [] → error_msg resp = reason resp.
Proof. unfold error_msg. by intros ->. Qed.

Lemma error_msg_nonempty resp :
  text resp ≠ [] → error_msg resp = take 120 (text resp) ++ ellipsis.
Proof. unfold error_msg. by destruct (text resp). Qed.

Lemma error_msg_length resp :
  text resp ≠ [] → (length (error_msg resp) ≤ 121)%nat.
Proof.
  intros H. rewrite error_msg_nonempty by done.
  rewrite length_app, length_take. change (length ellipsis) with 1%nat. lia.
Qed.

(** ** One iteration *)

Section IterationFacts.
Variable unicode_upper : Z → list Z.
Variable str_compound : json → py_str.

Abbreviation iter := (iteration unicode_upper str_compound).
Abbreviation uid_of := (identifier unicode_upper).

Lemma report_message_spec resp :
  report_message str_compound resp
  = (Print <$> message_lines (surfaced_message str_compound resp), Done ()).
Proof.
  unfold report_message, surfaced_message.
  destruct (json_result resp) as [[| | | | s |items|fields]|]; simpl; try done.
  - by destruct (is_substring _ _).
  - by destruct (existsb _ _).
  - by destruct (fields !! lit "message") as [v|] eqn:Hv.
Qed.

Lemma iteration_idle env line :
  readline_does env = Done line → Unicode.strip (decoded line) = [] →
  iter env = ([SerialReadline], Done ()).
Proof.
  intros Hr Hs. unfold iteration, try_body, call.
  rewrite Hr. cbn [mbind prog_bind]. unfold decode_bytes. rewrite decode_ignore_total.
  cbn [mbind prog_bind mret prog_ret]. by rewrite Hs.
Qed.

Lemma iteration_response env line resp :
  readline_does env = Done line → Unicode.strip (decoded line) ≠ [] →
  post_does env = Done resp →
  iter env
  = (request_events (uid_of line)
     ++ (Print <$> outcome_log (uid_of line) (response_outcome str_compound resp))
     ++ [Sleep 100],
     sleep_does env).
Proof.
  intros Hr Hs Hp. unfold iteration, try_body, call, identifier, response_outcome.
  rewrite Hr. cbn [mbind prog_bind]. unfold decode_bytes. rewrite decode_ignore_total.
  cbn [mbind prog_bind mret prog_ret].
  destruct (Unicode.strip (decoded line)) as [|c raw]; [done|].
  rewrite Hp. unfold print, call. cbn [mbind prog_bind mret prog_ret].
  destruct (ok resp).
  - rewrite report_message_spec.
    by destruct (surfaced_message str_compound resp), (sleep_does env).
  - by destruct (sleep_does env).
Qed.

Lemma iteration_post_raises env line e :
  readline_does env = Done line → Unicode.strip (decoded line) ≠ [] →
  post_does env = Raise e →
  iter env
  = if is_Exception e
    then (request_events (uid_of line)
          ++ (Print <$> outcome_log (uid_of line) (failure_outcome e))
          ++ [Sleep 100],
          sleep_does env)
    else (request_events (uid_of line), Raise e).
Proof.
  intros Hr Hs Hp. unfold iteration, try_body, call, identifier, failure_outcome.
  rewrite Hr. cbn [mbind prog_bind]. unfold decode_bytes. rewrite decode_ignore_total.
  cbn [mbind prog_bind mret prog_ret].
  destruct (Unicode.strip (decoded line)) as [|c raw]; [done|].
  rewrite Hp. unfold print, call. cbn [mbind prog_bind mret prog_ret].
  unfold try_except, loop_handlers, is_Timeout, is_ConnectionError,
    is_SerialException, is_Exception.
  destruct e as [cls msg]; destruct cls; cbn [exn_cls exn_str];
    by destruct (sleep_does env).
Qed.

Lemma iteration_read_raises env e :
  readline_does env = Raise e →
  iter env
  = if is_Exception e
    then (SerialReadline :: (Print <$> outcome_log [] (failure_outcome e))
          ++ [Sleep 100],
          sleep_does env)
    else ([SerialReadline], Raise e).
Proof.
  intros Hr. unfold iteration, try_body, call, failure_outcome.
  rewrite Hr. cbn [mbind prog_bind].
  unfold try_except, loop_handlers, is_Timeout, is_ConnectionError,
    is_SerialException, is_Exception.
  destruct e as [cls msg]; destruct cls; cbn [exn_cls exn_str];
    by destruct (sleep_does env).
Qed.
End IterationFacts.

(** ** Reading the trace of an iteration *)

Lemma printed_app tr1 tr2 : printed (tr1 ++ tr2) = printed tr1 ++ printed tr2.
Proof. apply omap_app. Qed.

Lemma printed_Print lines : printed (Print <$> lines) = lines.
Proof. induction lines as [|l lines IH]; [done|]. cbn. f_equal. exact IH. Qed.

Lemma posted_app tr1 tr2 : posted (tr1 ++ tr2) = posted tr1 ++ posted tr2.
Proof. apply omap_app. Qed.

Lemma posted_Print lines : posted (Print <$> lines) = [].
Proof. by induction lines. Qed.


Section Claims.
Variable unicode_upper : Z → list Z.
Variable str_compound : json → py_str.

Abbreviation iter := (iteration unicode_upper str_compound).
Abbreviation uid_of := (identifier unicode_upper).

(** An iteration that reads a line with an identifier sends exactly one
    request, and it carries that identifier. *)
Lemma posted_iteration env line :
  readline_does env = Done line → Unicode.strip (decoded line) ≠ [] →
  posted (trace (iter env)) = [(API_URL, post_payload (uid_of line))].
Proof.
  intros Hr Hs. destruct (post_does env) as [resp|e] eqn:Hp.
  - rewrite (iteration_response _ _ _ line resp) by done.
    unfold trace. cbn [fst]. by rewrite !posted_app, posted_Print.
  - rewrite (iteration_post_raises _ _ _ line e) by done.
    destruct (is_Exception e); unfold trace; cbn [fst]; [|done].
    by rewrite !posted_app, posted_Print.
Qed.

(** The lines an iteration prints when a response arrives, and when the
    request raises an exception that a clause of the loop catches. *)
Lemma printed_response env line resp :
  readline_does env = Done line → Unicode.strip (decoded line) ≠ [] →
  post_does env = Done resp →
  printed (trace (iter env))
  = detected_line (uid_of line)
    :: outcome_log (uid_of line) (response_outcome str_compound resp).
Proof.
  intros Hr Hs Hp. rewrite (iteration_response _ _ _ line resp) by done.
  unfold trace. cbn [fst]. rewrite !printed_app, printed_Print.
  cbn. by rewrite app_nil_r.
Qed.

Lemma printed_post_raises env line e :
  readline_does env = Done line → Unicode.strip (decoded line) ≠ [] →
  post_does env = Raise e → is_Exception e = true →
  printed (trace (iter env))
  = detected_line (uid_of line) :: outcome_log (uid_of line) (failure_outcome e).
Proof.
  intros Hr Hs Hp He. rewrite (iteration_post_raises _ _ _ line e) by done.
  rewrite He. unfold trace. cbn [fst]. rewrite !printed_app, printed_Print.
  cbn. by rewrite app_nil_r.
Qed.


Lemma ok_false_iff resp : ok resp = false ↔ 400 ≤ status_code resp ≤ 599.
Proof.
  unfold ok. rewrite negb_false_iff, andb_true_iff, Z.leb_le, Z.ltb_lt. lia.
Qed.

Lemma ok_true_iff resp : ok resp = true ↔ ¬ (400 ≤ status_code resp ≤ 599).
Proof. rewrite <- ok_false_iff. by destruct (ok resp). Qed.

(** C2, amended: for every HTTP response received with a status code from
    400 to 599, the lines printed are those of the Rejected outcome,
    with the status code and the error message; for every other status
    code they are those of a Delivered outcome; the lines of a Rejected
    outcome are never those of a Delivered one. *)
Theorem rejected_from_400_to_599 env line resp :
  readline_does env = Done line → Unicode.strip (decoded line) ≠ [] →
  post_does env = Done resp →
  (400 ≤ status_code resp ≤ 599 →
     printed (trace (iter env))
     = detected_line (uid_of line)
       :: outcome_log (uid_of line) (Rejected (status_code resp) (error_msg resp)))
  ∧ (¬ (400 ≤ status_code resp ≤ 599) →
       ∃ m, printed (trace (iter env))
            = detected_line (uid_of line) :: outcome_log (uid_of line) (Delivered m))
  ∧ (∀ uid1 uid2 m status excerpt,
       outcome_log uid1 (Rejected status excerpt) ≠ outcome_log uid2 (Delivered m)).
Proof.
  intros Hr Hs Hp. rewrite (printed_response env line resp) by done.
  unfold response_outcome. split_and!.
  - intros Hst. by rewrite (proj2 (ok_false_iff resp)).
  - intros Hst. rewrite (proj2 (ok_true_iff resp)) by done. eauto.
  - intros uid1 uid2 m status excerpt H.
    by apply outcome_log_category in H.
Qed.


Lemma is_Timeout_Exception e : is_Timeout e = true → is_Exception e = true.
Proof. unfold is_Timeout, is_Exception. by destruct (exn_cls e). Qed.

Lemma is_ConnectionError_Exception e :
  is_ConnectionError e = true → is_Exception e = true.
Proof. unfold is_ConnectionError, is_Exception. by destruct (exn_cls e). Qed.

Lemma is_SerialException_Exception e :
  is_SerialException e = true → is_Exception e = true.
Proof. unfold is_SerialException, is_Exception. by destruct (exn_cls e). Qed.

(** C6: when the request raises before a response is received, a
    [Timeout] is logged as NetworkTimeout and a [ConnectionError] that is
    no timeout (connection refused, host unreachable) as
    NetworkUnreachable; the lines of each of the two are the lines of no
    other outcome. *)
Theorem transport_failures_classified env line e :
  readline_does env = Done line → Unicode.strip (decoded line) ≠ [] →
  post_does env = Raise e →
  (is_Timeout e = true →
     printed (trace (iter env))
     = detected_line (uid_of line) :: outcome_log (uid_of line) NetworkTimeout)
  ∧ (is_Timeout e = false → is_ConnectionError e = true →
       printed (trace (iter env))
       = detected_line (uid_of line) :: outcome_log (uid_of line) NetworkUnreachable)
  ∧ (∀ uid1 uid2 o,
       outcome_log uid1 o = outcome_log uid2 NetworkTimeout → o = NetworkTimeout)
  ∧ (∀ uid1 uid2 o,
       outcome_log uid1 o = outcome_log uid2 NetworkUnreachable →
       o = NetworkUnreachable).
Proof.
  intros Hr Hs Hp. split_and!.
  - intros Ht. rewrite (printed_post_raises env line e); try done.
    + unfold failure_outcome. by rewrite Ht.
    + by apply is_Timeout_Exception.
  - intros Ht Hc. rewrite (printed_post_raises env line e); try done.
    + unfold failure_outcome. by rewrite Ht, Hc.
    + by apply is_ConnectionError_Exception.
  - intros uid1 uid2 o H. apply outcome_log_category in H. by destruct o.
  - intros uid1 uid2 o H. apply outcome_log_category in H. by destruct o.
Qed.

(** *** Pacing *)

Lemma existsb_sleep_Print lines : existsb is_sleep (Print <$> lines) = false.
Proof. by induction lines. Qed.

Lemma completes_Done (r : result ()) : completes r = true → r = Done ().
Proof. by destruct r as [[]|]. Qed.

(** C3, amended: an iteration that no interrupt cuts short ends with the
    delay of 0.1 s (100 ms) and falls through to the next iteration,
    unless it read a line that is empty once stripped: that iteration
    sends no request, takes no delay, and the next read follows at
    once. *)
Theorem pacing_delay_unless_idle env :
  uninterrupted env = true →
  (idle env = true → iter env = ([SerialReadline], Done ()))
  ∧ (idle env = false →
       ∃ tr, iter env = (SerialReadline :: tr ++ [Sleep 100], Done ())
             ∧ existsb is_sleep tr = false).
Proof.
  unfold uninterrupted, idle. rewrite !andb_true_iff.
  intros [[Hr Hp] Hsl]. apply completes_Done in Hsl.
  destruct (readline_does env) as [line|e] eqn:Er.
  - split; intros Hi.
    + apply bool_decide_eq_true in Hi. by apply (iteration_idle _ _ _ line).
    + apply bool_decide_eq_false in Hi.
      destruct (post_does env) as [resp|e] eqn:Ep.
      * rewrite (iteration_response _ _ _ line resp), Hsl by done.
        eexists (_ :: _ :: (Print <$> _)). split; [done|].
        cbn [existsb is_sleep orb]. apply existsb_sleep_Print.
      * rewrite (iteration_post_raises _ _ _ line e), Hsl by done.
        cbn [raises_Exception] in Hp. rewrite Hp.
        eexists (_ :: _ :: (Print <$> _)). split; [done|].
        cbn [existsb is_sleep orb]. apply existsb_sleep_Print.
  - split; [done|]. intros _.
    rewrite (iteration_read_raises _ _ _ e), Hsl by done.
    cbn [raises_Exception] in Hr. rewrite Hr.
    eexists. split; [done|]. apply existsb_sleep_Print.
Qed.

(** *** The loop and the process *)

(** The cases of an iteration: an idle read, a response, a request that
    raises, a read that raises. *)
Lemma iteration_cases env :
  (∃ line, readline_does env = Done line ∧ Unicode.strip (decoded line) = []
     ∧ iter env = ([SerialReadline], Done ()))
  ∨ (∃ line lines, readline_does env = Done line
       ∧ Unicode.strip (decoded line) ≠ []
       ∧ raises_Exception (post_does env) = true
       ∧ iter env = (request_events (uid_of line) ++ (Print <$> lines) ++ [Sleep 100],
                     sleep_does env))
  ∨ (∃ line e, readline_does env = Done line ∧ post_does env = Raise e
       ∧ is_Exception e = false
       ∧ iter env = (request_events (uid_of line), Raise e))
  ∨ (∃ e lines, readline_does env = Raise e ∧ is_Exception e = true
       ∧ iter env = (SerialReadline :: (Print <$> lines) ++ [Sleep 100],
                     sleep_does env))
  ∨ (∃ e, readline_does env = Raise e ∧ is_Exception e = false
       ∧ iter env = ([SerialReadline], Raise e)).
Proof.
  destruct (readline_does env) as [line|e] eqn:Er.
  - destruct (decide (Unicode.strip (decoded line) = [])) as [Hs|Hs].
    { left. exists line. eauto using iteration_idle. }
    destruct (post_does env) as [resp|e] eqn:Ep.
    + right; left. exists line. eexists. split_and!; [done..|].
      by apply iteration_response.
    + pose proof (iteration_post_raises unicode_upper str_compound env line e Er Hs Ep) as H.
      destruct (is_Exception e) eqn:He.
      * right; left. exists line. eexists. by split_and!.
      * do 2 right; left. exists line, e. by split_and!.
  - pose proof (iteration_read_raises unicode_upper str_compound env e Er) as H.
    destruct (is_Exception e) eqn:He.
    + do 3 right; left. exists e. eexists. by split_and!.
    + do 4 right. exists e. by split_and!.
Qed.

Lemma iteration_completes env :
  uninterrupted env = true → outcome (iter env) = Done ().
Proof.
  unfold uninterrupted. rewrite !andb_true_iff.
  intros [[Hr Hp] Hsl]. apply completes_Done in Hsl.
  destruct (iteration_cases env)
    as [(line & _ & _ & ->)|[(line & lines & _ & _ & _ & ->)|[(line & e & _ & Ep & He & _)
       |[(e & lines & _ & _ & ->)|(e & Er & He & _)]]]]; try done.
  - rewrite Ep in Hp. cbn in Hp. congruence.
  - rewrite Er in Hr. cbn in Hr. congruence.
Qed.


Lemma loop_cons env script :
  loop unicode_upper str_compound (env :: script)
  = match outcome (iter env) with
    | Done _ =>
      (trace (iter env) ++ trace (loop unicode_upper str_compound script),
       outcome (loop unicode_upper str_compound script))
    | Raise e => (trace (iter env), Raise e)
    end.
Proof.
  cbn [loop mbind prog_bind]. unfold trace, outcome.
  destruct (iter env) as [tr [[]|e]]; [|done].
  by destruct (loop unicode_upper str_compound script).
Qed.


Lemma loop_uninterrupted script :
  forallb uninterrupted script = true →
  loop unicode_upper str_compound script
  = (script ≫= (λ env, trace (iter env)), Done Looping).
Proof.
  induction script as [|env script IH]; [done|].
  cbn [forallb]. rewrite andb_true_iff. intros [Hu Hs].
  rewrite loop_cons, (iteration_completes env Hu), (IH Hs). done.
Qed.

Abbreviation main' := (main unicode_upper str_compound).
Abbreviation entry := (entry_point unicode_upper str_compound).

Lemma main_opened script :
  main' (Done ()) script
  = (SerialOpen SERIAL_PORT BAUDRATE 1000
     :: (Print <$>
          [lit "[+] RFID Relay Started: Listening on " ++ SERIAL_PORT
             ++ lit " at " ++ str_of_int BAUDRATE ++ lit " baud";
           lit "[+] API Endpoint: " ++ API_URL;
           lit "[+] Ready to process RFID tags..."])
     ++ trace (loop unicode_upper str_compound script),
     outcome (loop unicode_upper str_compound script)).
Proof.
  unfold main, open_serial, print, call, try_except.
  cbn [mbind prog_bind mret prog_ret].
  by destruct (loop unicode_upper str_compound script).
Qed.

Lemma main_open_raises e script :
  main' (Raise e) script
  = if is_Exception e
    then (SerialOpen SERIAL_PORT BAUDRATE 1000
          :: (Print <$>
               [lit "[!] Serial Connection Failed: Could not open "
                  ++ SERIAL_PORT ++ lit ": " ++ exn_str e;
                lit "[!] Please check:";
                lit "    - Arduino is connected to " ++ SERIAL_PORT;
                lit "    - Arduino drivers are installed";
                lit "    - Port is not in use by another application"]),
          Done Returned)
    else ([SerialOpen SERIAL_PORT BAUDRATE 1000], Raise e).
Proof.
  unfold main, open_serial, print, call, try_except.
  cbn [mbind prog_bind mret prog_ret].
  by destruct (is_Exception e).
Qed.

Lemma entry_point_status open_does script :
  (entry open_does script).2
  = match outcome (main' open_does script) with
    | Done Returned => Exited 0
    | Done Looping => Running
    | Raise e =>
      if is_KeyboardInterrupt e || is_Exception e then Exited 0 else Exited 1
    end.
Proof.
  unfold entry_point, banner, print, call, try_except, outcome.
  cbn [mbind prog_bind mret prog_ret].
  destruct (main' open_does script) as [tr [[]|e]]; try done.
  cbn [snd]. by destruct (is_KeyboardInterrupt e), (is_Exception e).
Qed.

Lemma entry_point_trace open_does script :
  ∃ lines,
    (entry open_does script).1
    = (Print <$> [replicate 60 0x3D; lit "ClexoMart IoT RFID Relay System";
                  lit "Real-time Inventory Tracking via RFID"; replicate 60 0x3D])
      ++ trace (main' open_does script) ++ (Print <$> lines).
Proof.
  unfold entry_point, banner, print, call, try_except, trace.
  cbn [mbind prog_bind mret prog_ret].
  destruct (main' open_does script) as [tr [[]|e]]; cbn [fst].
  - exists []. cbn. by rewrite ?app_nil_r.
  - exists []. cbn. by rewrite ?app_nil_r.
  - destruct (is_KeyboardInterrupt e); [|destruct (is_Exception e)].
    + eexists [_; _]. cbn. by rewrite ?app_nil_r.
    + eexists [_; _]. cbn. by rewrite ?app_nil_r.
    + exists []. cbn. by rewrite ?app_nil_r.
Qed.



(** C9: when the initial open of the port fails, [main] prints the cause
    and the hints and then returns; the process ends with exit status 0,
    the status it also ends with when [KeyboardInterrupt] stops the
    loop. *)
Theorem open_failure_exits_with_status_0 e script :
  is_Exception e = true →
  main' (Raise e) script
  = (SerialOpen SERIAL_PORT BAUDRATE 1000
     :: (Print <$>
          [lit "[!] Serial Connection Failed: Could not open "
             ++ SERIAL_PORT ++ lit ": " ++ exn_str e;
           lit "[!] Please check:";
           lit "    - Arduino is connected to " ++ SERIAL_PORT;
           lit "    - Arduino drivers are installed";
           lit "    - Port is not in use by another application"]),
     Done Returned)
  ∧ (entry (Raise e) script).2 = Exited 0
  ∧ (∀ script' k, is_KeyboardInterrupt k = true →
       outcome (main' (Done ()) script') = Raise k →
       (entry (Done ()) script').2 = Exited 0).
Proof.
  intros He. split_and!.
  - by rewrite main_open_raises, He.
  - by rewrite entry_point_status, main_open_raises, He.
  - intros script' k Hk Hm. by rewrite entry_point_status, Hm, Hk.
Qed.

End Claims.

(** ** Closed instances *)

Abbreviation run_iteration := (iteration Unicode.caseless str_opaque).
Abbreviation run_process := (entry_point Unicode.caseless str_opaque).

Example scan_a1b2c3_delivered :
  run_iteration (env_scan resp_200)
  = ([SerialReadline;
      Print (lit "[+] RFID Tag Detected: A1B2C3");
      HttpPost API_URL (JDict {[ lit "uid" := JStr (lit "A1B2C3") ]})
        post_headers 2000;
      Print (lit "[+] Success: UID A1B2C3 processed by Laravel");
      Print (lit "[+] Server Response: ok");
      Sleep 100],
     Done ()).
Proof. by vm_compute. Qed.

(** C4: a body of thirteen characters is logged with the ellipsis after
    it, although nothing was cut: the message is not the body itself. *)
Theorem short_body_gets_ellipsis :
  (length (text resp_422) ≤ 120)%nat
  ∧ error_msg resp_422 = lit "duplicate tag" ++ ellipsis
  ∧ error_msg resp_422 ≠ text resp_422
  ∧ printed (trace (run_iteration (env_scan resp_422)))
    = [lit "[+] RFID Tag Detected: A1B2C3";
       lit "[!] API Error 422: duplicate tag" ++ ellipsis;
       lit "[!] Failed to process UID: A1B2C3"].
Proof. split_and!; [by vm_compute; lia|done|done|by vm_compute]. Qed.


(** C2 as stated fails: a response with status 304 is outside [200,299],
    and the lines printed for it are those of a Delivered outcome, not
    those of a Rejected one, whatever the excerpt. *)
Lemma status_304_is_not_rejected :
  ¬ (200 ≤ status_code resp_304 ≤ 299)
  ∧ printed (trace (run_iteration (env_scan resp_304)))
    = detected_line (lit "A1B2C3") :: outcome_log (lit "A1B2C3") (Delivered None)
  ∧ ∀ excerpt,
      printed (trace (run_iteration (env_scan resp_304)))
      ≠ detected_line (lit "A1B2C3")
        :: outcome_log (lit "A1B2C3") (Rejected 304 excerpt).
Proof.
  assert (printed (trace (run_iteration (env_scan resp_304)))
          = detected_line (lit "A1B2C3")
            :: outcome_log (lit "A1B2C3") (Delivered None)) as H
    by (by vm_compute).
  split_and!; [cbn; lia|done|].
  intros excerpt. rewrite H. intros Heq.
  apply (f_equal tail) in Heq. cbn [tail] in Heq.
  by apply outcome_log_category in Heq.
Qed.

Lemma rejected_from_400_to_599_witness :
  400 ≤ status_code resp_422 ≤ 599
  ∧ printed (trace (run_iteration (env_scan resp_422)))
    = detected_line (lit "A1B2C3")
      :: outcome_log (lit "A1B2C3") (Rejected 422 (error_msg resp_422)).
Proof.
  split; [cbn; lia|].
  apply (proj1 (rejected_from_400_to_599 Unicode.caseless str_opaque
                  (env_scan resp_422) line_a1b2c3 resp_422 eq_refl
                  ltac:(vm_compute; discriminate) eq_refl)).
  cbn; lia.
Defined.

(** C3 as stated fails: two idle reads follow each other with no delay
    between them, and the iteration of an idle read does not end with the
    delay. *)
Lemma idle_read_takes_no_delay :
  uninterrupted env_idle = true
  ∧ trace (loop Unicode.caseless str_opaque [env_idle; env_idle])
    = [SerialReadline; SerialReadline]
  ∧ ¬ ∃ tr, trace (run_iteration env_idle) = tr ++ [Sleep 100].
Proof.
  split_and!; [done..|].
  intros [tr H]. change (trace (run_iteration env_idle)) with [SerialReadline] in H.
  by destruct tr as [|? [|? ?]].
Qed.

Lemma pacing_delay_unless_idle_witness :
  uninterrupted (env_scan resp_200) = true
  ∧ ∃ tr, run_iteration (env_scan resp_200)
          = (SerialReadline :: tr ++ [Sleep 100], Done ())
          ∧ existsb is_sleep tr = false.
Proof.
  split; [reflexivity|].
  apply (proj2 (pacing_delay_unless_idle Unicode.caseless str_opaque
                  (env_scan resp_200) eq_refl)).
  reflexivity.
Defined.


Lemma transport_failures_classified_witness :
  is_Timeout timed_out = true
  ∧ printed (trace (run_iteration (env_scan_fails timed_out)))
    = detected_line (lit "A1B2C3") :: outcome_log (lit "A1B2C3") NetworkTimeout.
Proof.
  split; [reflexivity|].
  apply (proj1 (transport_failures_classified Unicode.caseless str_opaque
                  (env_scan_fails timed_out) line_a1b2c3 timed_out eq_refl
                  ltac:(vm_compute; discriminate) eq_refl)).
  reflexivity.
Defined.





Lemma open_failure_exits_with_status_0_witness :
  is_Exception port_missing = true
  ∧ (run_process (Raise port_missing) script_mixed).2 = Exited 0
  ∧ (run_process (Done ()) [env_read_fails interrupt]).2 = Exited 0.
Proof.
  split; [reflexivity|].
  destruct (open_failure_exits_with_status_0 Unicode.caseless str_opaque
              port_missing script_mixed eq_refl) as (_ & Hexit & Hint).
  split; [exact Hexit|].
  by apply (Hint [env_read_fails interrupt] interrupt).
Defined.


(** * Further properties of the loop and the process *)

Lemma count_app p tr1 tr2 : count p (tr1 ++ tr2) = (count p tr1 + count p tr2)%nat.
Proof. unfold count. by rewrite List.filter_app, length_app. Qed.

Lemma count_Print p lines :
  p (Print []) = false → (∀ l, p (Print l) = p (Print [])) →
  count p (Print <$> lines) = 0%nat.
Proof.
  intros H0 Hp. induction lines as [|l lines IH]; [done|].
  unfold count in *. cbn. by rewrite (Hp l), H0.
Qed.

Lemma pending_after_app b tr1 tr2 :
  pending_after b (tr1 ++ tr2) = pending_after (pending_after b tr1) tr2.
Proof. apply foldl_app. Qed.

Lemma paced_from_app b tr1 tr2 :
  paced_from b (tr1 ++ tr2)
  = paced_from b tr1 && paced_from (pending_after b tr1) tr2.
Proof.
  revert b. induction tr1 as [|ev tr1 IH]; intros b; [done|].
  cbn [app paced_from pending_after foldl]. rewrite IH.
  by rewrite andb_assoc.
Qed.

Lemma pending_after_Print b lines : pending_after b (Print <$> lines) = b.
Proof. revert b. by induction lines. Qed.

Lemma paced_from_Print b lines : paced_from b (Print <$> lines) = true.
Proof. revert b. by induction lines. Qed.

Section Runs.
Variable unicode_upper : Z → list Z.
Variable str_compound : json → py_str.

Abbreviation iter := (iteration unicode_upper str_compound).
Abbreviation loop' := (loop unicode_upper str_compound).
Abbreviation main' := (main unicode_upper str_compound).
Abbreviation entry := (entry_point unicode_upper str_compound).

(** The loop runs the iterations of the script in order, to the end of the
    script or to the first iteration that raises. *)
Lemma loop_run script :
  (Forall (λ env, outcome (iter env) = Done ()) script
   ∧ loop' script = (script ≫= (λ env, trace (iter env)), Done Looping))
  ∨ (∃ ran env rest e,
       script = ran ++ env :: rest
       ∧ Forall (λ env, outcome (iter env) = Done ()) ran
       ∧ outcome (iter env) = Raise e
       ∧ loop' script = ((ran ++ [env]) ≫= (λ env, trace (iter env)), Raise e)).
Proof.
  induction script as [|env script IH]; [by left|].
  rewrite loop_cons. destruct (outcome (iter env)) as [[]|e] eqn:Ho.
  - destruct IH as [[Hall ->]|(ran & env' & rest & e & -> & Hall & He & ->)].
    + left. split; [by constructor|done].
    + right. exists (env :: ran), env', rest, e. split_and!; try done.
      by constructor.
  - right. exists [], env, script, e. split_and!; try done.
    cbn. by rewrite app_nil_r.
Qed.




(** Every iteration reads once, and sends at most one request and takes at
    most one delay. *)
Lemma iteration_counts env :
  count is_readline (trace (iter env)) = 1%nat
  ∧ (count is_post (trace (iter env)) ≤ 1)%nat
  ∧ (count is_sleep (trace (iter env)) ≤ 1)%nat
  ∧ count is_open (trace (iter env)) = 0%nat.
Proof.
  destruct (iteration_cases unicode_upper str_compound env)
    as [(line & _ & _ & ->)|[(line & lines & _ & _ & _ & ->)
       |[(line & e & _ & _ & _ & ->)|[(e & lines & _ & _ & ->)|(e & _ & _ & ->)]]]];
    unfold trace; cbn [fst];
    try change (SerialReadline :: ?l) with ([SerialReadline] ++ l);
    rewrite ?count_app, ?count_Print by done; cbn; lia.
Qed.

Lemma bind_counts (script : list iter_env) :
  count is_readline (script ≫= (λ env, trace (iter env))) = length script
  ∧ (count is_post (script ≫= (λ env, trace (iter env))) ≤ length script)%nat
  ∧ (count is_sleep (script ≫= (λ env, trace (iter env))) ≤ length script)%nat
  ∧ count is_open (script ≫= (λ env, trace (iter env))) = 0%nat.
Proof.
  induction script as [|env script IH]; [done|].
  rewrite !bind_cons, !count_app. cbn [length].
  pose proof (iteration_counts env). lia.
Qed.

(** The trace of the loop is that of the iterations it started. *)
Lemma loop_trace script :
  ∃ started, started `prefix_of` script
    ∧ trace (loop' script) = started ≫= (λ env, trace (iter env)).
Proof.
  destruct (loop_run script)
    as [[_ ->]|(ran & env & rest & e & -> & _ & _ & ->)].
  - by exists script.
  - exists (ran ++ [env]). split; [|done].
    rewrite (cons_middle env ran rest), app_assoc. by apply prefix_app_r.
Qed.

(** X2: the relay neither retries nor queues: in every run of the loop,
    whatever the environment does, there are no more requests and no more
    delays than reads, and no more reads than iterations in the script. *)
Theorem at_most_one_request_per_read script :
  (count is_post (trace (loop' script)) ≤ count is_readline (trace (loop' script)))%nat
  ∧ (count is_sleep (trace (loop' script)) ≤ count is_readline (trace (loop' script)))%nat
  ∧ (count is_readline (trace (loop' script)) ≤ length script)%nat.
Proof.
  destruct (loop_trace script) as (started & Hpre & ->).
  pose proof (bind_counts started) as (-> & Hp & Hs & _).
  apply prefix_length in Hpre. lia.
Qed.

(** An iteration sends its request with none pending, and leaves none
    pending when it completes. *)
Lemma iteration_paced env :
  paced_from false (trace (iter env)) = true
  ∧ (outcome (iter env) = Done () → pending_after false (trace (iter env)) = false).
Proof.
  destruct (iteration_cases unicode_upper str_compound env)
    as [(line & _ & _ & ->)|[(line & lines & _ & _ & _ & ->)
       |[(line & e & _ & _ & _ & ->)|[(e & lines & _ & _ & ->)|(e & _ & _ & ->)]]]];
    unfold trace, outcome; cbn [fst snd]; try done.
  - rewrite !paced_from_app, !pending_after_app, paced_from_Print, pending_after_Print.
    done.
  - change (SerialReadline :: ?l) with ([SerialReadline] ++ l).
    rewrite !paced_from_app, !pending_after_app, paced_from_Print, pending_after_Print.
    done.
Qed.

Lemma loop_paced script :
  paced_from false (trace (loop' script)) = true.
Proof.
  induction script as [|env script IH]; [done|].
  rewrite loop_cons. destruct (iteration_paced env) as [Hp Hd].
  destruct (outcome (iter env)) as [[]|e]; unfold trace in *; cbn [fst]; [|done].
  by rewrite paced_from_app, Hp, Hd.
Qed.

(** X3: in every run of the process, whatever the environment does, a
    request is never sent while the one before it is still waiting for its
    delay: any two requests are separated by a delay of 100 ms. *)
Theorem requests_are_paced open_does script :
  paced_from false (fst (entry open_does script)) = true.
Proof.
  destruct (entry_point_trace unicode_upper str_compound open_does script)
    as [lines ->].
  rewrite !paced_from_app, ?pending_after_app, !paced_from_Print, !pending_after_Print.
  cbn [andb]. rewrite andb_true_r.
  destruct open_does as [[]|e].
  - rewrite main_opened. pose proof (loop_paced script) as Hl.
    unfold trace in *. cbn [fst].
    change (SerialOpen ?a ?b ?c :: ?l) with ([SerialOpen a b c] ++ l).
    by rewrite !paced_from_app, ?pending_after_app, paced_from_Print,
      ?pending_after_Print.
  - rewrite main_open_raises. by destruct (is_Exception e).
Qed.

(** X4: the port is opened once, at the start, with the configured port,
    baud rate and read timeout of one second, and never again: no failure
    of a later read makes the relay reopen it. *)
Theorem port_opened_once open_does script :
  ∃ rest,
    fst (entry open_does script)
    = (Print <$> [replicate 60 0x3D; lit "ClexoMart IoT RFID Relay System";
                  lit "Real-time Inventory Tracking via RFID"; replicate 60 0x3D])
      ++ SerialOpen SERIAL_PORT BAUDRATE 1000 :: rest
    ∧ count is_open rest = 0%nat.
Proof.
  destruct (entry_point_trace unicode_upper str_compound open_does script)
    as [lines ->].
  destruct open_does as [[]|e].
  - rewrite main_opened. unfold trace. cbn [fst].
    eexists. split; [done|].
    destruct (loop_trace script) as (started & _ & Hl). unfold trace in Hl.
    rewrite Hl, !count_app, !count_Print by done.
    pose proof (bind_counts started) as (_ & _ & _ & Hc).
    unfold trace in Hc. by rewrite Hc.
  - rewrite main_open_raises.
    destruct (is_Exception e); unfold trace; cbn [fst];
      (eexists; split; [done|]); by rewrite ?count_app, !count_Print.
Qed.

Lemma loop_app pre script :
  forallb uninterrupted pre = true →
  loop' (pre ++ script)
  = ((pre ≫= (λ env, trace (iter env))) ++ trace (loop' script),
     outcome (loop' script)).
Proof.
  induction pre as [|env pre IH]; intros Hu.
  - cbn [app]. change ([] ≫= _) with (@nil event). by destruct (loop' script).
  - cbn [forallb] in Hu. apply andb_true_iff in Hu as [Hu Hpre].
    rewrite <- app_comm_cons, loop_cons, (iteration_completes _ _ env Hu), (IH Hpre).
    unfold trace, outcome. cbn [fst snd]. by rewrite bind_cons, app_assoc.
Qed.

(** X5: an operator interrupt stops the relay at once and cleanly: when
    [KeyboardInterrupt] leaves an iteration, nothing of the rest of the
    script is run, the two lines of the shutdown message are printed after
    what the run had done so far, and the process exits with status 0. *)
Theorem interrupt_stops_the_relay pre env rest k :
  forallb uninterrupted pre = true →
  outcome (iter env) = Raise k → is_KeyboardInterrupt k = true →
  entry (Done ()) (pre ++ env :: rest)
  = (fst (entry (Done ()) pre) ++ trace (iter env)
     ++ [Print ([10] ++ lit "[+] RFID Relay stopped by user (Ctrl+C)");
         Print (lit "[+] Goodbye!")],
     Exited 0).
Proof.
  intros Hu Hk Hint.
  assert (loop' (pre ++ env :: rest)
          = ((pre ≫= (λ env, trace (iter env))) ++ trace (iter env), Raise k)) as Hl.
  { rewrite (loop_app pre _ Hu), loop_cons, Hk. done. }
  unfold entry_point. rewrite !main_opened, Hl, (loop_uninterrupted _ _ pre Hu).
  unfold banner, print, call, try_except, trace, outcome.
  cbn [mbind prog_bind mret prog_ret fst snd]. rewrite Hint.
  cbn [mbind prog_bind mret prog_ret fst snd]. f_equal.
  cbn. by rewrite ?app_nil_r, <- ?app_assoc.
Qed.

End Runs.

(** * Further properties of the normalisation of a line *)

Section StripFacts.
Import Unicode.

Lemma lstrip_split s :
  ∃ pre, s = pre ++ lstrip s ∧ forallb isspace pre = true.
Proof.
  induction s as [|c s (pre & Hs & Hpre)]; [by exists []|].
  cbn [lstrip]. destruct (isspace c) eqn:Hc.
  - exists (c :: pre). cbn [forallb app]. rewrite Hc, Hpre. by rewrite <- Hs.
  - by exists [].
Qed.

Lemma lstrip_head s c t : lstrip s = c :: t → isspace c = false.
Proof.
  induction s as [|c' s IH]; [done|]. cbn [lstrip].
  destruct (isspace c') eqn:Hc; [done|]. intros [= <- _]. done.
Qed.

Lemma lstrip_id s : (∀ c, head s = Some c → isspace c = false) → lstrip s = s.
Proof.
  destruct s as [|c s]; [done|]. intros H. cbn [lstrip]. by rewrite (H c).
Qed.

Lemma lstrip_spaces s : forallb isspace s = true → lstrip s = [].
Proof.
  induction s as [|c s IH]; [done|]. cbn [forallb lstrip].
  intros [-> Hs]%andb_true_iff. by apply IH.
Qed.

Lemma lstrip_fmap (f : Z → Z) s :
  (∀ c, isspace (f c) = isspace c) → lstrip (f <$> s) = f <$> lstrip s.
Proof.
  intros Hf. induction s as [|c s IH]; [done|].
  cbn [fmap list_fmap lstrip]. rewrite Hf. by destruct (isspace c).
Qed.

Lemma forallb_reverse (p : Z → bool) s : forallb p (reverse s) = forallb p s.
Proof.
  induction s as [|c s IH]; [done|].
  rewrite reverse_cons, forallb_app, IH. cbn. by rewrite andb_true_r, andb_comm.
Qed.

Lemma rstrip_split s :
  ∃ suf, s = rstrip s ++ suf ∧ forallb isspace suf = true.
Proof.
  unfold rstrip. destruct (lstrip_split (reverse s)) as (pre & Hs & Hpre).
  exists (reverse pre). split; [|by rewrite forallb_reverse].
  by rewrite <- reverse_app, <- Hs, reverse_involutive.
Qed.

Lemma rstrip_last s c : last (rstrip s) = Some c → isspace c = false.
Proof.
  unfold rstrip. rewrite last_reverse.
  destruct (lstrip (reverse s)) as [|c' t] eqn:E; [done|].
  intros [= <-]. by apply lstrip_head in E.
Qed.

Lemma rstrip_id s : (∀ c, last s = Some c → isspace c = false) → rstrip s = s.
Proof.
  intros H. unfold rstrip. rewrite lstrip_id; [apply reverse_involutive|].
  intros c. rewrite head_reverse. apply H.
Qed.

Lemma rstrip_fmap (f : Z → Z) s :
  (∀ c, isspace (f c) = isspace c) → rstrip (f <$> s) = f <$> rstrip s.
Proof.
  intros Hf. unfold rstrip.
  by rewrite <- fmap_reverse, lstrip_fmap, fmap_reverse.
Qed.

Lemma strip_split s :
  ∃ pre suf, s = pre ++ strip s ++ suf
    ∧ forallb isspace pre = true ∧ forallb isspace suf = true.
Proof.
  destruct (lstrip_split s) as (pre & Hs & Hpre).
  destruct (rstrip_split (lstrip s)) as (suf & Ht & Hsuf).
  exists pre, suf. unfold strip. by rewrite <- Ht.
Qed.

Lemma strip_nil_iff s : strip s = [] ↔ forallb isspace s = true.
Proof.
  split.
  - intros H. destruct (strip_split s) as (pre & suf & -> & Hpre & Hsuf).
    rewrite H. by rewrite !forallb_app, Hpre, Hsuf.
  - intros H. unfold strip. by rewrite lstrip_spaces.
Qed.

Lemma strip_head s c : head (strip s) = Some c → isspace c = false.
Proof.
  unfold strip. destruct (rstrip_split (lstrip s)) as (suf & Ht & _).
  destruct (rstrip (lstrip s)) as [|c' t]; [done|].
  intros [= <-]. by apply lstrip_head in Ht.
Qed.

Lemma strip_last s c : last (strip s) = Some c → isspace c = false.
Proof. apply rstrip_last. Qed.

Lemma strip_idempotent s : strip (strip s) = strip s.
Proof.
  unfold strip at 1. rewrite (lstrip_id (strip s)) by apply strip_head.
  apply rstrip_id, strip_last.
Qed.

Lemma strip_fmap (f : Z → Z) s :
  (∀ c, isspace (f c) = isspace c) → strip (f <$> s) = f <$> strip s.
Proof. intros Hf. unfold strip. by rewrite lstrip_fmap, rstrip_fmap. Qed.

Lemma strip_forallb (p : Z → bool) s :
  forallb p s = true → forallb p (strip s) = true.
Proof.
  destruct (strip_split s) as (pre & suf & Hs & _). rewrite Hs at 1.
  rewrite !forallb_app, !andb_true_iff. by intros (_ & ? & _).
Qed.
End StripFacts.

Lemma isspace_ascii_upper c : Unicode.isspace (ascii_upper c) = Unicode.isspace c.
Proof.
  unfold ascii_upper, is_ascii_lower.
  destruct (Z.leb_spec 0x61 c), (Z.leb_spec c 0x7A); cbn [andb]; try done.
  unfold Unicode.isspace.
  repeat match goal with
  | |- context [?a <=? ?b] => destruct (Z.leb_spec a b); try lia
  | |- context [?a =? ?b] => destruct (Z.eqb_spec a b); try lia
  end; done.
Qed.

Lemma ascii_upper_idempotent c : ascii_upper (ascii_upper c) = ascii_upper c.
Proof.
  unfold ascii_upper, is_ascii_lower.
  destruct (Z.leb_spec 0x61 c), (Z.leb_spec c 0x7A); cbn [andb];
    repeat match goal with
    | |- context [?a <=? ?b] => destruct (Z.leb_spec a b); cbn [andb]; try lia
    end; done.
Qed.

Lemma ascii_upper_not_lower c : is_ascii_lower (ascii_upper c) = false.
Proof.
  unfold ascii_upper, is_ascii_lower.
  destruct (Z.leb_spec 0x61 c), (Z.leb_spec c 0x7A); cbn [andb];
    repeat match goal with
    | |- context [?a <=? ?b] => destruct (Z.leb_spec a b); cbn [andb]; try lia
    end; done.
Qed.

Lemma is_ascii_upper c : is_ascii c = true → is_ascii (ascii_upper c) = true.
Proof.
  unfold ascii_upper, is_ascii_lower, is_ascii.
  destruct (Z.leb_spec 0x61 c), (Z.leb_spec c 0x7A); cbn [andb]; try done.
  intros _.
  repeat match goal with
  | |- context [?a <=? ?b] => destruct (Z.leb_spec a b); cbn [andb]; try lia
  | |- context [?a <? ?b] => destruct (Z.ltb_spec a b); cbn [andb]; try lia
  end; done.
Qed.

Lemma decode_ascii h (line : py_bytes) :
  forallb is_ascii line = true → Utf8.decode h line = Some line.
Proof.
  induction line as [|ch line IH]; [done|].
  cbn [forallb Utf8.decode]. intros [Hc Hl]%andb_true_iff.
  unfold is_ascii in Hc. apply andb_true_iff in Hc as [_ ->].
  by rewrite (IH Hl).
Qed.

Lemma upper_char_ascii unicode_upper c :
  is_ascii c = true → Unicode.upper_char unicode_upper c = [ascii_upper c].
Proof.
  unfold Unicode.upper_char, ascii_upper, is_ascii_lower, is_ascii.
  intros [_ ->]%andb_true_iff. by destruct ((0x61 <=? c) && (c <=? 0x7A)).
Qed.

Lemma upper_ascii unicode_upper s :
  forallb is_ascii s = true → Unicode.upper unicode_upper s = ascii_upper <$> s.
Proof.
  induction s as [|c s IH]; [done|].
  cbn [forallb]. intros [Hc Hs]%andb_true_iff.
  unfold Unicode.upper in *.
  by rewrite bind_cons, (IH Hs), (upper_char_ascii _ c Hc), fmap_cons.
Qed.

(** Comparisons on [Z] in the hypotheses and the goal are decided, and
    linear arithmetic closes the cases that cannot be. *)
Ltac decide_comparisons :=
  repeat match goal with
  | H : context [?a <? ?b] |- _ => destruct (Z.ltb_spec a b)
  | H : context [?a <=? ?b] |- _ => destruct (Z.leb_spec a b)
  | H : context [?a =? ?b] |- _ => destruct (Z.eqb_spec a b)
  | |- context [?a <? ?b] => destruct (Z.ltb_spec a b)
  | |- context [?a <=? ?b] => destruct (Z.leb_spec a b)
  | |- context [?a =? ?b] => destruct (Z.eqb_spec a b)
  end;
  cbn [andb orb negb] in *; try done; try lia.

Section ScalarValues.
Import Utf8.

Lemma cp2_scalar ch ch2 :
  (ch <? 0xC2) = false → (ch <? 0xE0) = true → is_continuation ch2 = true →
  is_scalar_value (cp2 ch ch2) = true.
Proof.
  unfold is_scalar_value, cp2, is_continuation.
  rewrite !Z.shiftl_mul_pow2 by lia. intros. decide_comparisons.
Qed.

Lemma cp3_scalar ch ch2 ch3 :
  (ch <? 0xE0) = false → (ch <? 0xF0) = true →
  bad_second3 ch ch2 = false → is_continuation ch3 = true →
  is_scalar_value (cp3 ch ch2 ch3) = true.
Proof.
  unfold is_scalar_value, cp3, bad_second3, is_continuation.
  rewrite !Z.shiftl_mul_pow2 by lia. intros. decide_comparisons.
Qed.

Lemma cp4_scalar ch ch2 ch3 ch4 :
  (ch <? 0xF0) = false → (ch <? 0xF5) = true →
  bad_second4 ch ch2 = false → is_continuation ch3 = true →
  is_continuation ch4 = true →
  is_scalar_value (cp4 ch ch2 ch3 ch4) = true.
Proof.
  unfold is_scalar_value, cp4, bad_second4, is_continuation.
  rewrite !Z.shiftl_mul_pow2 by lia. intros. decide_comparisons.
Qed.

Lemma byte_scalar ch :
  is_byte ch = true → (ch <? 0x80) = true → is_scalar_value ch = true.
Proof. unfold is_byte, is_scalar_value. intros. decide_comparisons. Qed.

Lemma decode_ignore_scalar n :
  ∀ (b : py_bytes) s, (length b ≤ n)%nat → forallb is_byte b = true →
    decode Ignore b = Some s → forallb is_scalar_value s = true.
Proof.
  induction n as [|n IH]; intros b s Hn Hb.
  { destruct b; [by intros [= <-]|simpl in Hn; lia]. }
  assert (Hskip : ∀ rest : py_bytes, (length rest < length b)%nat →
    forallb is_byte rest = true →
    decode Ignore rest = Some s → forallb is_scalar_value s = true).
  { intros rest Hlt Hr. apply IH; [lia|done]. }
  assert (Hkeep : ∀ (rest : py_bytes) c, (length rest < length b)%nat →
    forallb is_byte rest = true → is_scalar_value c = true →
    emit c (decode Ignore rest) = Some s → forallb is_scalar_value s = true).
  { intros rest c Hlt Hr Hc He.
    destruct (decode Ignore rest) as [s'|] eqn:Hd; [|done].
    injection He as <-. cbn [forallb]. rewrite Hc.
    apply (IH rest s'); [lia|done..]. }
  clear IH Hn.
  destruct b as [|ch s1]; [by intros [= <-]|].
  cbn [decode on_error].
  repeat first
    [ by intros [= <-]
    | match goal with
      | |- context [if ?c then _ else _] => destruct c eqn:?
      | |- context [match ?l with [] => _ | _ :: _ => _ end] => destruct l
      end ];
    cbn [forallb] in Hb; rewrite ?andb_true_iff in Hb; destruct_and?;
    first
      [ apply Hskip; [simpl; lia|]; cbn [forallb]; by rewrite ?andb_true_iff
      | apply Hkeep; [simpl; lia| |];
        [cbn [forallb]; by rewrite ?andb_true_iff
        |first [ by apply byte_scalar | by apply cp2_scalar
               | by apply cp3_scalar | by apply cp4_scalar
               | apply cp4_scalar; try done; by destruct (is_continuation _) ]] ].
Qed.
End ScalarValues.

(** X7: the error message logged for a rejected request is bounded: for a
    body that is not empty it is at most 121 characters long and starts
    with the first 120 characters of the body, however long the body is;
    for an empty body it is the reason phrase. *)
Theorem error_message_is_bounded resp :
  (text resp = [] → error_msg resp = reason resp)
  ∧ (text resp ≠ [] →
       (length (error_msg resp) ≤ 121)%nat
       ∧ take 120 (text resp) `prefix_of` error_msg resp
       ∧ last (error_msg resp) = Some 0x2026).
Proof.
  split; [apply error_msg_empty|]. intros H.
  split_and!; [by apply error_msg_length|..];
    rewrite (error_msg_nonempty resp H).
  - by apply prefix_app_r.
  - apply last_snoc.
Qed.

Lemma existsb_lower_ascii_upper s :
  existsb is_ascii_lower (ascii_upper <$> s) = false.
Proof.
  induction s as [|c s IH]; [done|].
  cbn [fmap list_fmap existsb]. by rewrite ascii_upper_not_lower.
Qed.

(** The identifier of an ASCII line, and that it is ASCII again. *)
Lemma ascii_line_identifier_aux unicode_upper line :
  forallb is_ascii line = true →
  identifier unicode_upper line = ascii_upper <$> Unicode.strip line
  ∧ forallb is_ascii (ascii_upper <$> Unicode.strip line) = true.
Proof.
  intros Ha. split.
  - unfold identifier, decoded. rewrite decode_ascii by done.
    by apply upper_ascii, strip_forallb.
  - apply (strip_forallb is_ascii) in Ha.
    induction (Unicode.strip line) as [|c s IH]; [done|].
    cbn [forallb fmap list_fmap] in *. apply andb_true_iff in Ha as [Hc Hs].
    by rewrite (is_ascii_upper c Hc), IH.
Qed.

Section Normalisation.
Variable unicode_upper : Z → list Z.
Variable str_compound : json → py_str.

Abbreviation iter := (iteration unicode_upper str_compound).

(** X8: the message of a success response is printed only for a JSON
    object with a [message] key: for any other parsed value (a list or a
    string that contains [message], a number, [null], an object without the
    key) and for a body that does not parse, the iteration prints the
    success line alone and completes. *)
Theorem only_an_object_message_is_printed env line resp :
  readline_does env = Done line → Unicode.strip (decoded line) ≠ [] →
  post_does env = Done resp → ok resp = true →
  (∀ fields, json_result resp = Some (JDict fields) →
     fields !! lit "message" = None) →
  printed (trace (iter env))
  = [lit "[+] RFID Tag Detected: " ++ identifier unicode_upper line;
     lit "[+] Success: UID " ++ identifier unicode_upper line
       ++ lit " processed by Laravel"]
  ∧ outcome (iter env) = sleep_does env.
Proof.
  intros Hr Hs Hp Hok Hmsg.
  rewrite (printed_response _ _ env line resp), (iteration_response _ _ env line resp)
    by done.
  unfold response_outcome. rewrite Hok.
  assert (surfaced_message str_compound resp = None) as ->; [|done].
  unfold surfaced_message.
  destruct (json_result resp) as [[| | | | | |fields]|]; try done.
  by rewrite (Hmsg fields).
Qed.

(** X9: a line of ASCII bytes is decoded to itself, and its identifier is
    the stripped line with the letters [a] to [z] replaced by [A] to [Z],
    whatever the Unicode tables say: it has the length of the stripped
    line, no lower-case ASCII letter, and neither starts nor ends with white
    space. *)
Theorem ascii_line_identifier line :
  forallb is_ascii line = true →
  decoded line = line
  ∧ identifier unicode_upper line = ascii_upper <$> Unicode.strip line
  ∧ length (identifier unicode_upper line) = length (Unicode.strip line)
  ∧ existsb is_ascii_lower (identifier unicode_upper line) = false
  ∧ (∀ c, head (identifier unicode_upper line) = Some c → Unicode.isspace c = false)
  ∧ (∀ c, last (identifier unicode_upper line) = Some c → Unicode.isspace c = false).
Proof.
  intros Ha.
  assert (decoded line = line) as Hd.
  { unfold decoded. by rewrite decode_ascii. }
  assert (identifier unicode_upper line = ascii_upper <$> Unicode.strip line) as Hid.
  { unfold identifier. rewrite Hd. by apply upper_ascii, strip_forallb. }
  rewrite Hid. split_and!; try done.
  - apply length_fmap.
  - apply existsb_lower_ascii_upper.
  - intros c Hc. rewrite <- (strip_fmap ascii_upper) in Hc by apply isspace_ascii_upper.
    by apply strip_head in Hc.
  - intros c Hc. rewrite <- (strip_fmap ascii_upper) in Hc by apply isspace_ascii_upper.
    by apply strip_last in Hc.
Qed.

(** X10: the lines the relay skips are exactly those whose text is white
    space only (so also the empty line of a read that timed out): the
    iteration of such a line is the read alone, and the iteration of any
    other line is more than that. *)
Theorem skipped_lines_are_whitespace env line :
  readline_does env = Done line →
  forallb Unicode.isspace (decoded line) = true
  ↔ iter env = ([SerialReadline], Done ()).
Proof.
  intros Hr. rewrite <- strip_nil_iff. split.
  - by apply iteration_idle.
  - intros Hi. destruct (decide (Unicode.strip (decoded line) = [])) as [|Hs]; [done|].
    pose proof (posted_iteration unicode_upper str_compound env line Hr Hs) as Hp.
    by rewrite Hi in Hp.
Qed.

(** X11: normalisation is idempotent on ASCII lines: the identifier of a
    line, read again as a line, is its own identifier. *)
Theorem identifier_is_idempotent line :
  forallb is_ascii line = true →
  identifier unicode_upper (identifier unicode_upper line)
  = identifier unicode_upper line.
Proof.
  intros Ha.
  destruct (ascii_line_identifier_aux unicode_upper line Ha) as (Hid & Hascii).
  rewrite Hid.
  destruct (ascii_line_identifier_aux unicode_upper _ Hascii) as (-> & _).
  rewrite strip_fmap by apply isspace_ascii_upper.
  rewrite strip_idempotent, <- list_fmap_compose.
  apply list_fmap_ext. intros i c _. apply ascii_upper_idempotent.
Qed.

(** X12: whatever bytes the port delivers, the text of a line consists of
    Unicode scalar values only: no surrogate and nothing above U+10FFFF
    comes out of the decoder. *)
Theorem decoded_text_is_scalar line :
  forallb is_byte line = true → forallb is_scalar_value (decoded line) = true.
Proof.
  intros Hb. apply (decode_ignore_scalar (length line) line); [done..|].
  apply decode_ignore_total.
Qed.
End Normalisation.

(** ** Closed instances of the further properties *)


Lemma interrupt_stops_the_relay_witness :
  forallb uninterrupted [env_scan resp_200] = true
  ∧ is_KeyboardInterrupt interrupt = true
  ∧ run_process (Done ())
      ([env_scan resp_200] ++ env_read_fails interrupt :: [env_scan resp_422])
    = (fst (run_process (Done ()) [env_scan resp_200])
       ++ [SerialReadline;
           Print ([10] ++ lit "[+] RFID Relay stopped by user (Ctrl+C)");
           Print (lit "[+] Goodbye!")],
       Exited 0).
Proof.
  split; [reflexivity|]. split; [reflexivity|].
  apply (interrupt_stops_the_relay Unicode.caseless str_opaque
           [env_scan resp_200] (env_read_fails interrupt) [env_scan resp_422]
           interrupt eq_refl eq_refl eq_refl).
Defined.


Lemma error_message_is_bounded_witness :
  text resp_422 ≠ []
  ∧ (length (error_msg resp_422) ≤ 121)%nat
  ∧ last (error_msg resp_422) = Some 0x2026.
Proof.
  assert (text resp_422 ≠ []) as H by done.
  split; [exact H|].
  destruct (proj2 (error_message_is_bounded resp_422) H) as (Hlen & _ & Hlast).
  by split.
Defined.

Lemma only_an_object_message_is_printed_witness :
  ok resp_200_list = true
  ∧ printed (trace (run_iteration (env_scan resp_200_list)))
    = [lit "[+] RFID Tag Detected: A1B2C3";
       lit "[+] Success: UID A1B2C3 processed by Laravel"].
Proof.
  split; [reflexivity|].
  apply (only_an_object_message_is_printed Unicode.caseless str_opaque
           (env_scan resp_200_list) line_a1b2c3 resp_200_list eq_refl
           ltac:(vm_compute; discriminate) eq_refl eq_refl).
  intros fields Hf. discriminate Hf.
Defined.

Lemma ascii_line_identifier_witness :
  forallb is_ascii line_a1b2c3 = true
  ∧ identifier Unicode.caseless line_a1b2c3 = ascii_upper <$> Unicode.strip line_a1b2c3
  ∧ existsb is_ascii_lower (identifier Unicode.caseless line_a1b2c3) = false.
Proof.
  split; [reflexivity|].
  destruct (ascii_line_identifier Unicode.caseless line_a1b2c3 eq_refl)
    as (_ & Hid & _ & Hlow & _).
  by split.
Defined.

Lemma skipped_lines_are_whitespace_witness :
  readline_does env_blank = Done line_blank
  ∧ forallb Unicode.isspace (decoded line_blank) = true
  ∧ run_iteration env_blank = ([SerialReadline], Done ()).
Proof.
  split; [reflexivity|]. split; [reflexivity|].
  apply (skipped_lines_are_whitespace Unicode.caseless str_opaque
           env_blank line_blank eq_refl).
  reflexivity.
Defined.

Lemma identifier_is_idempotent_witness :
  forallb is_ascii line_a1b2c3 = true
  ∧ identifier Unicode.caseless (identifier Unicode.caseless line_a1b2c3)
    = identifier Unicode.caseless line_a1b2c3.
Proof.
  split; [reflexivity|].
  apply (identifier_is_idempotent Unicode.caseless line_a1b2c3 eq_refl).
Defined.

Lemma decoded_text_is_scalar_witness :
  forallb is_byte line_noisy = true
  ∧ forallb is_scalar_value (decoded line_noisy) = true.
Proof.
  split; [reflexivity|].
  apply (decoded_text_is_scalar line_noisy eq_refl).
Defined.
